(** * get-diff.ts: a wrapper around [git --no-pager diff]

    A shallow embedding of [src/get-diff.ts].  The module builds an argument
    vector, hands it to Node's [execFileSync] (no shell in between) and either
    returns what was captured on standard output or throws one composed
    error.

    Conventions of the embedding:
    - a JavaScript string is a [string] holding the UTF-8 form of its text;
    - a [Buffer] is a [list byte];
    - an optional parameter or field is an [option];
    - [try]/[throw] is a [Completion]: a value returned or a value thrown. *)

From Stdlib.Strings Require Import String Ascii Byte.
From Stdlib Require Import List Bool ZArith NArith Lia.
Import ListNotations.

Local Open Scope list_scope.
Local Open Scope string_scope.

(** ** Values of the host language *)

Module Js.

Definition Buffer : Type := list byte.

(** The values that flow through [getDiff]: [undefined]/[null], a string,
    a [Buffer], or some other object.  All that [getDiff] ever does with
    such an object is call [toString('utf8')] on it, which either
    produces a string or throws. *)
Inductive Value : Type :=
| VNull
| VString (s : string)
| VBuffer (b : Buffer)
| VObject (toString : option string).

(** Outcome of evaluating a call: [return v] or [throw e]. *)
Inductive Completion (A E : Type) : Type :=
| Return (a : A)
| Throw (e : E).
Arguments Return {A E} a.
Arguments Throw {A E} e.

(** The line feed written [\n] in the source. *)
Definition nl : string := String "010"%char EmptyString.

(** Truthiness of a string: only [''] is falsy. *)
Definition truthy_string (s : string) : bool := negb (s =? "").

(** Truthiness of a value: [undefined], [null] and [''] are falsy, every
    object (an empty [Buffer] too) is truthy. *)
Definition truthy (v : Value) : bool :=
  match v with
  | VNull => false
  | VString s => truthy_string s
  | VBuffer _ => true
  | VObject _ => true
  end.

(** [String.prototype.includes]. *)
Fixpoint includes (s sub : string) : bool :=
  prefix sub s ||
  match s with
  | EmptyString => false
  | String _ s' => includes s' sub
  end.

(** *** [Buffer.prototype.toString('utf8')]

    Decoding never throws: each maximal ill-formed part of the input is
    replaced by U+FFFD, well-formed sequences are kept as they are. *)

(** U+FFFD REPLACEMENT CHARACTER, in UTF-8. *)
Definition REPLACEMENT : string :=
  String "239"%char (String "191"%char (String "189"%char EmptyString)).

(** The decoder's automaton: [needed] continuation bytes are still
    expected, the next one within [lo..hi]; [seen] holds the bytes of the
    sequence read so far. *)
Fixpoint utf8_scan (needed : nat) (lo hi : N) (seen : string)
         (bs : Buffer) : string :=
  match bs with
  | [] => match needed with O => "" | S _ => REPLACEMENT end
  | b :: rest =>
      let n := Byte.to_N b in
      let c := ascii_of_byte b in
      let lead :=
        (if n <? 128 then String c (utf8_scan 0 128 191 "" rest)
         else if (194 <=? n) && (n <=? 223)
              then utf8_scan 1 128 191 (String c "") rest
         else if n =? 224 then utf8_scan 2 160 191 (String c "") rest
         else if n =? 237 then utf8_scan 2 128 159 (String c "") rest
         else if (225 <=? n) && (n <=? 239)
              then utf8_scan 2 128 191 (String c "") rest
         else if n =? 240 then utf8_scan 3 144 191 (String c "") rest
         else if n =? 244 then utf8_scan 3 128 143 (String c "") rest
         else if (241 <=? n) && (n <=? 243)
              then utf8_scan 3 128 191 (String c "") rest
         else REPLACEMENT ++ utf8_scan 0 128 191 "" rest)%N in
      match needed with
      | O => lead
      | S k =>
          if ((lo <=? n) && (n <=? hi))%N then
            match k with
            | O => seen ++ String c (utf8_scan 0 128 191 "" rest)
            | S _ => utf8_scan k 128 191 (seen ++ String c "") rest
            end
          else REPLACEMENT ++ lead
      end
  end.

Definition Buffer_toString (b : Buffer) : string :=
  utf8_scan 0 128 191 "" b.

(** A byte sequence is well-formed UTF-8 when decoding changes nothing. *)
Definition valid_utf8 (b : Buffer) : bool :=
  Buffer_toString b =? string_of_list_byte b.

(** *** Error objects *)

(** What [execFileSync] throws: an [Error] carrying the fields of the
    [spawnSync] result. *)
Record ExecError : Type := {
  err_name : string;
  err_message : string;
  err_code : option string;
  err_status : option Z;
  err_signal : option string;
  err_stdout : Value;
  err_stderr : Value
}.

(** [String(err)], that is [Error.prototype.toString]. *)
Definition String_of_error (e : ExecError) : string :=
  if err_name e =? "" then err_message e
  else if err_message e =? "" then err_name e
  else err_name e ++ ": " ++ err_message e.

End Js.
Import Js.

(** ** The source: [getDiff] *)

(** [GetDiffOptions]: every field is optional. *)
Record GetDiffOptions : Type := {
  gitDir : option string;
  raw : option bool;
  maxBuffer : option Z
}.

(** The options object handed to [execFileSync]. *)
Record ExecOptions : Type := {
  cwd : option string;
  encoding : option string;
  exec_maxBuffer : Z
}.

(** The composed error: [new Error(msg)] with [ex.original = err]. *)
Record DiffError : Type := {
  message : string;
  original : ExecError
}.

(** One call of [execFileSync(file, args, options)]. *)
Record ExecCall : Type := {
  call_file : string;
  call_args : list string;
  call_options : ExecOptions
}.

(** Lines 39-49: the argument vector. *)
Definition getDiff_args (revRange : option string) (paths : list string)
  : list string :=
  let args := ["--no-pager"; "diff"] in
  let args :=
    match revRange with
    | Some r =>
        if truthy_string r && (0 <? String.length r)%nat
        then (args ++ [r])%list else args
    | None => args
    end in
  let args :=
    if (0 <? List.length paths)%nat then (args ++ "--" :: paths)%list else args in
  args.

(** Lines 51-59: [execOptions]. *)
Definition getDiff_execOptions (options : GetDiffOptions) : ExecOptions :=
  {| cwd := gitDir options;
     encoding := match raw options with
                 | Some true => None
                 | _ => Some "utf8"
                 end;
     exec_maxBuffer := match maxBuffer options with
                       | Some m => m
                       | None => 200 * 1024 * 1024
                       end |}.

(** Line 62: what is passed to [execFileSync]. *)
Definition getDiff_call (revRange : option string) (paths : list string)
           (options : GetDiffOptions) : ExecCall :=
  {| call_file := "git";
     call_args := getDiff_args revRange paths;
     call_options := getDiff_execOptions options |}.

(** Lines 66-73: [stderrMsg].  The inner [try] turns a throwing
    [toString] into the placeholder. *)
Definition getDiff_stderrMsg (err : ExecError) : string :=
  if truthy (err_stderr err) then
    match err_stderr err with
    | VString s => s
    | VBuffer b => Buffer_toString b
    | VObject (Some s) => s
    | VObject None => "<failed to decode stderr>"
    | VNull => ""
    end
  else "".

(** Line 74: [msg]. *)
Definition getDiff_msg (err : ExecError) : string :=
  let stderrMsg := getDiff_stderrMsg err in
  "git diff failed: "
  ++ (if truthy_string (err_message err) then err_message err
      else String_of_error err)
  ++ (if truthy_string stderrMsg then nl ++ "stderr:" ++ nl ++ stderrMsg
      else "").

(** Lines 64-79: the [catch] block. *)
Definition getDiff_catch (err : ExecError) : DiffError :=
  {| message := getDiff_msg err; original := err |}.

Section GetDiff.

(** Node's [execFileSync], imported from ['child_process']. *)
Variable execFileSync :
  string -> list string -> ExecOptions -> Completion Value ExecError.

Definition run_call (c : ExecCall) : Completion Value ExecError :=
  execFileSync (call_file c) (call_args c) (call_options c).

(** Lines 34-80.  Omitted [paths] and [options] are [[]] and [{}]. *)
Definition getDiff (revRange : option string) (paths : list string)
           (options : GetDiffOptions) : Completion Value DiffError :=
  match run_call (getDiff_call revRange paths options) with
  | Return result => Return result
  | Throw err => Throw (getDiff_catch err)
  end.

End GetDiff.

(** [{}]: the default of the [options] parameter. *)
Definition no_options : GetDiffOptions :=
  {| gitDir := None; raw := None; maxBuffer := None |}.

(** ** The runtime: Node's [child_process]

    [execFileSync] is not part of the repository.  It is modelled as Node
    documents it, on top of an arbitrary child process: [spawnSync] runs the
    child and decodes what it captured when an encoding is given,
    [execFileSync] throws when the run reports an error or a status other
    than 0 and returns [stdout] otherwise. *)

Module ChildProcess.

(** What one synchronous run reports, before any decoding.  Either the
    child never started and only an errno name is known ([ENOENT],
    [EACCES]); or it ran, and the run reports an errno name if it was cut
    short ([ENOBUFS] when the output went over [maxBuffer]), the exit
    status ([null] when a signal ended it), the signal, and the bytes
    captured on standard output and standard error. *)
Inductive SpawnOutcome : Type :=
| NotStarted (errno : string)
| Ran (error : option string) (status : option Z) (signal : option string)
      (stdout stderr : Buffer).

Definition sp_error (r : SpawnOutcome) : option string :=
  match r with
  | NotStarted errno => Some errno
  | Ran error _ _ _ _ => error
  end.

Definition sp_status (r : SpawnOutcome) : option Z :=
  match r with
  | NotStarted _ => None
  | Ran _ status _ _ _ => status
  end.

Definition sp_signal (r : SpawnOutcome) : option string :=
  match r with
  | NotStarted _ => None
  | Ran _ _ signal _ _ => signal
  end.

Definition sp_output (r : SpawnOutcome) : option (Buffer * Buffer) :=
  match r with
  | NotStarted _ => None
  | Ran _ _ _ stdout stderr => Some (stdout, stderr)
  end.

(** A child process: a function of the executable, the argument vector,
    the working directory and the output cap. *)
Definition Child : Type :=
  string -> list string -> option string -> Z -> SpawnOutcome.

(** The object [spawnSync] returns. *)
Record SpawnSyncReturns : Type := {
  ret_error : option string;
  ret_status : option Z;
  ret_signal : option string;
  ret_stdout : Value;
  ret_stderr : Value
}.

(** A captured stream as [spawnSync] hands it over,
    [options.encoding && options.encoding !== 'buffer']: decoded when a
    non-empty encoding other than ['buffer'] is set (only ['utf8'] is
    modelled, the one [getDiff] asks for), a [Buffer] otherwise.  Output
    longer than the engine's longest string is outside the model. *)
Definition present (enc : option string) (b : Buffer) : Value :=
  match enc with
  | Some e => if truthy_string e && negb (e =? "buffer")
              then VString (Buffer_toString b)
              else VBuffer b
  | None => VBuffer b
  end.

Definition spawnSync (child : Child) (file : string) (args : list string)
           (options : ExecOptions) : SpawnSyncReturns :=
  let r := child file args (cwd options) (exec_maxBuffer options) in
  {| ret_error := sp_error r;
     ret_status := sp_status r;
     ret_signal := sp_signal r;
     ret_stdout := match sp_output r with
                   | Some (out, _) => present (encoding options) out
                   | None => VNull
                   end;
     ret_stderr := match sp_output r with
                   | Some (_, err) => present (encoding options) err
                   | None => VNull
                   end |}.

(** [ret.stderr && ret.stderr.length > 0], then [ret.stderr.toString()]. *)
Definition stderr_suffix (v : Value) : string :=
  match v with
  | VString s => if (0 <? String.length s)%nat then nl ++ s else ""
  | VBuffer b => if (0 <? List.length b)%nat
                 then nl ++ Buffer_toString b else ""
  | _ => ""
  end.

Definition is_zero (status : option Z) : bool :=
  match status with
  | Some z => (z =? 0)%Z
  | None => false
  end.

(** [checkExecSyncError]: the error of a failed run, if it failed. *)
Definition checkExecSyncError (ret : SpawnSyncReturns)
           (file : string) (args : list string) : option ExecError :=
  match ret_error ret with
  | Some code =>
      Some {| err_name := "Error";
              err_message := "spawnSync " ++ file ++ " " ++ code;
              err_code := Some code;
              err_status := ret_status ret;
              err_signal := ret_signal ret;
              err_stdout := ret_stdout ret;
              err_stderr := ret_stderr ret |}
  | None =>
      if is_zero (ret_status ret) then None
      else
        Some {| err_name := "Error";
                err_message := "Command failed: "
                               ++ String.concat " " (file :: args)
                               ++ stderr_suffix (ret_stderr ret);
                err_code := None;
                err_status := ret_status ret;
                err_signal := ret_signal ret;
                err_stdout := ret_stdout ret;
                err_stderr := ret_stderr ret |}
  end.

Definition execFileSync (child : Child) (file : string)
           (args : list string) (options : ExecOptions)
  : Completion Value ExecError :=
  let ret := spawnSync child file args options in
  match checkExecSyncError ret file args with
  | Some err => Throw err
  | None => Return (ret_stdout ret)
  end.

End ChildProcess.

(** [getDiff] on Node's [execFileSync], for a given child process. *)
Definition getDiff_on (child : ChildProcess.Child) :=
  getDiff (ChildProcess.execFileSync child).

(** The invocation [getDiff] makes of the child process. *)
Definition child_run (child : ChildProcess.Child) (revRange : option string)
           (paths : list string) (options : GetDiffOptions)
  : ChildProcess.SpawnOutcome :=
  let c := getDiff_call revRange paths options in
  child (call_file c) (call_args c) (cwd (call_options c))
        (exec_maxBuffer (call_options c)).

(** ** Vocabulary of the statements *)

(** The argument shape as the specification words it:
    [["--no-pager", "diff", <optional revision-range>, "--", <path>...]],
    the range left out when absent or empty, [--] and the paths left out
    when there are no paths. *)
Definition spec_argument_vector (revRange : option string)
           (paths : list string) : list string :=
  (["--no-pager"; "diff"]
   ++ match revRange with
      | None => []
      | Some EmptyString => []
      | Some r => [r]
      end
   ++ match paths with
      | [] => []
      | _ :: _ => "--" :: paths
      end)%list.

Import ChildProcess.

(** A run succeeded: no error reported and exit status 0. *)
Definition succeeded (r : SpawnOutcome) : bool :=
  match sp_error r with
  | Some _ => false
  | None => is_zero (sp_status r)
  end.

(** The errno name the runtime reports when the captured output went over
    [maxBuffer]. *)
Definition ENOBUFS : string := "ENOBUFS".

(** The placeholder of line 71. *)
Definition stderr_placeholder : string := "<failed to decode stderr>".

(** [200 * 1024 * 1024], the cap used when [maxBuffer] is not given. *)
Definition default_maxBuffer : Z := 209715200.

(** What [getDiff] hands back on success: text unless [raw] is true. *)
Definition result_of (options : GetDiffOptions) (stdout : Buffer) : Value :=
  match raw options with
  | Some true => VBuffer stdout
  | _ => VString (Buffer_toString stdout)
  end.

(** ** Sample children, for concrete runs *)

(** A child that writes [out] and [err] and exits with [status], cut short
    by the runtime when [out] is longer than the cap. *)
Definition printing_child (out err : Buffer) (status : Z) : Child :=
  fun _ _ _ cap =>
    if (cap <? Z.of_nat (List.length out))%Z
    then Ran (Some ENOBUFS) None (Some "SIGTERM")
             (firstn (Z.to_nat cap) out) err
    else Ran None (Some status) None out err.

(** A child ended by a signal before it wrote anything. *)
Definition killed_child (signal : string) : Child :=
  fun _ _ _ _ => Ran None None (Some signal) [] [].

(** An executable that cannot be started. *)
Definition missing_child : Child := fun _ _ _ _ => NotStarted "ENOENT".

Definition raw_options : GetDiffOptions :=
  {| gitDir := None; raw := Some true; maxBuffer := None |}.

Definition capped_options (cap : Z) : GetDiffOptions :=
  {| gitDir := None; raw := None; maxBuffer := Some cap |}.

(** ** Further vocabulary *)

(** Lines 34-38: [paths] and [options] have the default values [[]] and
    [{}], taken when the caller leaves them out. *)
Definition getDiff_call_defaults (revRange : option string)
           (paths : option (list string)) (options : option GetDiffOptions)
  : ExecCall :=
  getDiff_call revRange
               (match paths with Some p => p | None => [] end)
               (match options with Some o => o | None => no_options end).

(** Line 74, the middle of the template:
    [err && err.message ? err.message : String(err)]. *)
Definition getDiff_description (err : ExecError) : string :=
  if truthy_string (err_message err) then err_message err
  else String_of_error err.

(** Line 74, the end of the template: the labeled block for a text. *)
Definition stderr_block (text : string) : string :=
  nl ++ "stderr:" ++ nl ++ text.

(** Every byte below 128. *)
Definition all_ascii (b : Buffer) : bool :=
  forallb (fun x => (Byte.to_N x <? 128)%N) b.

(** The object [spawnSync] builds from a run, for a given encoding. *)
Definition returns_of (enc : option string) (r : SpawnOutcome)
  : SpawnSyncReturns :=
  {| ret_error := sp_error r;
     ret_status := sp_status r;
     ret_signal := sp_signal r;
     ret_stdout := match sp_output r with
                   | Some (out, _) => present enc out
                   | None => VNull
                   end;
     ret_stderr := match sp_output r with
                   | Some (_, err) => present enc err
                   | None => VNull
                   end |}.

(** An [execFileSync] that throws a given error, and an error with only a
    name, a message and a [stderr]. *)
Definition throwing (err : ExecError)
  : string -> list string -> ExecOptions -> Completion Value ExecError :=
  fun _ _ _ => Throw err.

Definition plain_error (name msg : string) (stderr : Value) : ExecError :=
  {| err_name := name; err_message := msg; err_code := None;
     err_status := None; err_signal := None;
     err_stdout := VNull; err_stderr := stderr |}.

(** ** The output cap, as the runtime enforces it

    [spawnSync] counts the bytes it reads from the child's standard output
    and standard error.  With a cap above 0, it stops the child and reports
    [ENOBUFS] once the count goes over the cap; a cap of 0 sets no limit.
    A negative cap is refused before any child exists and is outside this
    model. *)

(** What a program does when left to run to its end: it cannot be
    started, or it writes on standard output and standard error and ends
    with an exit status or a signal. *)
Inductive Launch : Type :=
| CannotStart (errno : string)
| Runs (stdout stderr : Buffer) (status : option Z) (signal : option string).

(** A program: a function of the executable, the argument vector and the
    working directory. *)
Definition Program : Type := string -> list string -> option string -> Launch.

(** What the runtime holds when it has stopped a child over the cap: how
    the child ended and the part of its output read until then.  These
    depend on how the writes were scheduled. *)
Record Stopped : Type := {
  stopped_status : option Z;
  stopped_signal : option string;
  stopped_stdout : Buffer;
  stopped_stderr : Buffer
}.

Definition Stop : Type := Buffer -> Buffer -> Z -> Stopped.

(** [max_buffer > 0 && buffered_output_size > max_buffer]. *)
Definition over_cap (cap : Z) (stdout stderr : Buffer) : bool :=
  ((0 <? cap) && (cap <? Z.of_nat (List.length stdout + List.length stderr)))%Z.

(** A program run under the cap. *)
Definition supervise (stop : Stop) (program : Program) : Child :=
  fun file args dir cap =>
    match program file args dir with
    | CannotStart errno => NotStarted errno
    | Runs stdout stderr status signal =>
        if over_cap cap stdout stderr then
          let s := stop stdout stderr cap in
          Ran (Some ENOBUFS) (stopped_status s) (stopped_signal s)
              (stopped_stdout s) (stopped_stderr s)
        else Ran None status signal stdout stderr
    end.

(** The cap [getDiff] passes on: [options.maxBuffer ?? 200 * 1024 * 1024]. *)
Definition getDiff_cap (options : GetDiffOptions) : Z :=
  match maxBuffer options with
  | Some m => m
  | None => default_maxBuffer
  end.

(** A program that writes [out] and [err] and exits with [status]
    whatever it is given, and a runtime that stops a child with [SIGTERM]
    holding the first [cap] bytes of each stream. *)
Definition writing (out err : Buffer) (status : Z) : Program :=
  fun _ _ _ => Runs out err (Some status) None.

Definition stop_truncating : Stop :=
  fun stdout stderr cap =>
    {| stopped_status := None;
       stopped_signal := Some "SIGTERM";
       stopped_stdout := firstn (Z.to_nat cap) stdout;
       stopped_stderr := firstn (Z.to_nat cap) stderr |}.

(** ** Auxiliary facts *)

Section Strings.

Lemma append_nonempty_l (s t : string) : s <> "" -> s ++ t <> "".
Proof. destruct s; [congruence | discriminate]. Qed.

Lemma append_nonempty_r (s t : string) : t <> "" -> s ++ t <> "".
Proof. destruct s; simpl; [auto | discriminate]. Qed.

Lemma truthy_string_true (s : string) : s <> "" -> truthy_string s = true.
Proof.
  intros H. unfold truthy_string.
  destruct (String.eqb_spec s ""); [contradiction | reflexivity].
Qed.

Lemma prefix_append (sub t : string) : prefix sub (sub ++ t) = true.
Proof.
  induction sub as [| c sub IH]; simpl.
  - destruct t; reflexivity.
  - destruct (ascii_dec c c); [exact IH | contradiction].
Qed.

Lemma includes_append_r (pre s sub : string) :
  includes s sub = true -> includes (pre ++ s) sub = true.
Proof.
  induction pre as [| c pre IH]; simpl; intros H; [exact H |].
  rewrite (IH H). apply orb_true_r.
Qed.

Lemma includes_prefix (s sub : string) :
  prefix sub s = true -> includes s sub = true.
Proof. destruct s; cbn [includes]; intros ->; reflexivity. Qed.

Lemma prefix_refl (s : string) : prefix s s = true.
Proof.
  induction s as [| c s IH]; simpl; [reflexivity |].
  destruct (ascii_dec c c); [exact IH | contradiction].
Qed.

Lemma includes_suffix (pre sub : string) : includes (pre ++ sub) sub = true.
Proof. apply includes_append_r, includes_prefix, prefix_refl. Qed.

Lemma includes_infix (pre sub post : string) :
  includes (pre ++ sub ++ post) sub = true.
Proof. apply includes_append_r, includes_prefix, prefix_append. Qed.

Lemma string_of_list_byte_nonempty (b : Buffer) :
  b <> [] -> string_of_list_byte b <> "".
Proof. destruct b; [congruence | discriminate]. Qed.

End Strings.

Section Decoder.

Lemma REPLACEMENT_append_nonempty (s : string) : REPLACEMENT ++ s <> "".
Proof. discriminate. Qed.

(** With a sequence pending, the decoder always produces something. *)
Lemma utf8_scan_pending (bs : Buffer) :
  forall k lo hi seen, utf8_scan (S k) lo hi seen bs <> "".
Proof.
  induction bs as [| b rest IH]; intros k lo hi seen.
  - discriminate.
  - cbn [utf8_scan].
    destruct ((lo <=? to_N b)%N && (to_N b <=? hi)%N).
    + destruct k as [| k].
      * apply append_nonempty_r. discriminate.
      * apply IH.
    + apply REPLACEMENT_append_nonempty.
Qed.

Lemma Buffer_toString_nonempty (b : Buffer) :
  b <> [] -> Buffer_toString b <> "".
Proof.
  destruct b as [| b rest]; [congruence |]. intros _.
  unfold Buffer_toString. cbn [utf8_scan].
  repeat match goal with
         | |- (if ?c then _ else _) <> _ => destruct c
         end;
    solve [ discriminate
          | apply utf8_scan_pending
          | apply REPLACEMENT_append_nonempty ].
Qed.

Lemma valid_utf8_decode (b : Buffer) :
  valid_utf8 b = true -> Buffer_toString b = string_of_list_byte b.
Proof. unfold valid_utf8. intros H. apply String.eqb_eq, H. Qed.

Lemma invalid_utf8_nonempty (b : Buffer) : valid_utf8 b = false -> b <> [].
Proof. intros H ->. discriminate H. Qed.

End Decoder.

(** ** The argument vector *)

Lemma getDiff_args_shape (revRange : option string) (paths : list string) :
  getDiff_args revRange paths = spec_argument_vector revRange paths.
Proof.
  unfold getDiff_args, spec_argument_vector.
  destruct revRange as [[| c r] |]; destruct paths as [| p ps]; reflexivity.
Qed.

Section Boundary.

Variable execFileSync :
  string -> list string -> ExecOptions -> Completion Value ExecError.

Variables (revRange : option string) (paths : list string)
          (options : GetDiffOptions).

Lemma getDiff_unfold :
  getDiff execFileSync revRange paths options =
  match execFileSync "git" (getDiff_args revRange paths)
                     (getDiff_execOptions options) with
  | Return result => Return result
  | Throw err => Throw (getDiff_catch err)
  end.
Proof. reflexivity. Qed.

Lemma getDiff_returns (result : Value) :
  execFileSync "git" (getDiff_args revRange paths)
               (getDiff_execOptions options) = Return result ->
  getDiff execFileSync revRange paths options = Return result.
Proof. intros H. rewrite getDiff_unfold, H. reflexivity. Qed.

Lemma getDiff_throws (err : ExecError) :
  execFileSync "git" (getDiff_args revRange paths)
               (getDiff_execOptions options) = Throw err ->
  getDiff execFileSync revRange paths options = Throw (getDiff_catch err).
Proof. intros H. rewrite getDiff_unfold, H. reflexivity. Qed.

End Boundary.

(** C1.  Whatever [execFileSync] is, [getDiff] calls it on ["git"] with
    exactly the vector [--no-pager], [diff], then [revRange] as one
    unchanged argument when it is given and not empty, then [--] and the
    paths, unchanged and in order, when there are paths; and the outcome of
    [getDiff] is the outcome of that one call. *)
Theorem getDiff_argument_vector
        (execFileSync :
           string -> list string -> ExecOptions -> Completion Value ExecError)
        (revRange : option string) (paths : list string)
        (options : GetDiffOptions) :
  call_file (getDiff_call revRange paths options) = "git" /\
  call_args (getDiff_call revRange paths options)
  = spec_argument_vector revRange paths /\
  getDiff execFileSync revRange paths options
  = match execFileSync "git" (spec_argument_vector revRange paths)
                       (getDiff_execOptions options) with
    | Return result => Return result
    | Throw err => Throw (getDiff_catch err)
    end.
Proof.
  repeat split.
  - apply getDiff_args_shape.
  - rewrite getDiff_unfold, getDiff_args_shape. reflexivity.
Qed.

(** C9.  The options never reach the argument vector: two calls with the
    same [revRange] and [paths] pass the same executable and the same
    arguments whatever their options are; the options decide the working
    directory, the encoding and the output cap, and nothing else. *)
Theorem getDiff_args_ignore_options
        (revRange : option string) (paths : list string)
        (options1 options2 : GetDiffOptions) :
  call_file (getDiff_call revRange paths options1)
  = call_file (getDiff_call revRange paths options2) /\
  call_args (getDiff_call revRange paths options1)
  = call_args (getDiff_call revRange paths options2) /\
  call_options (getDiff_call revRange paths options1)
  = {| cwd := gitDir options1;
       encoding := if match raw options1 with Some true => true | _ => false end
                   then None else Some "utf8";
       exec_maxBuffer := match maxBuffer options1 with
                         | Some m => m
                         | None => 209715200
                         end |}.
Proof.
  repeat split.
  unfold getDiff_call, getDiff_execOptions; cbn [call_options].
  destruct (raw options1) as [[|] |]; reflexivity.
Qed.

(** C10.  [--] is emitted as soon as [paths] is not empty, whatever its
    elements are: the vector is the one for no paths, then [--], then the
    paths as they are, empty strings included. *)
Theorem getDiff_separator_nonempty_paths
        (revRange : option string) (paths : list string)
        (options : GetDiffOptions) :
  paths <> [] ->
  call_args (getDiff_call revRange paths options)
  = (call_args (getDiff_call revRange [] options) ++ "--" :: paths)%list.
Proof.
  intros Hne. cbn [call_args getDiff_call]. unfold getDiff_args.
  destruct paths as [| p ps]; [congruence |].
  cbn [List.length Nat.ltb Nat.leb].
  destruct revRange as [r |];
    [destruct (truthy_string r && (0 <? String.length r)%nat) |];
    reflexivity.
Qed.

Lemma getDiff_separator_nonempty_paths_witness :
  [""] <> [] /\
  call_args (getDiff_call None [""] no_options) = ["--no-pager"; "diff"; "--"; ""].
Proof.
  split; [discriminate |].
  rewrite (getDiff_separator_nonempty_paths None [""] no_options);
    [reflexivity | discriminate].
Defined.

(** ** [getDiff] on Node's runtime *)

Section OnNode.

Variable child : Child.
Variables (revRange : option string) (paths : list string)
          (options : GetDiffOptions).

Lemma present_result (b : Buffer) :
  present (encoding (getDiff_execOptions options)) b = result_of options b.
Proof.
  unfold result_of, getDiff_execOptions; cbn [encoding].
  destruct (raw options) as [[|] |]; reflexivity.
Qed.

(** [execFileSync] sees the child only through [child_run]. *)
Lemma execFileSync_run :
  execFileSync child "git" (getDiff_args revRange paths)
               (getDiff_execOptions options)
  = let r := child_run child revRange paths options in
    let ret :=
      {| ret_error := sp_error r;
         ret_status := sp_status r;
         ret_signal := sp_signal r;
         ret_stdout :=
           match sp_output r with
           | Some (out, _) => present (encoding (getDiff_execOptions options)) out
           | None => VNull
           end;
         ret_stderr :=
           match sp_output r with
           | Some (_, err) => present (encoding (getDiff_execOptions options)) err
           | None => VNull
           end |} in
    match checkExecSyncError ret "git" (getDiff_args revRange paths) with
    | Some err => Throw err
    | None => Return (ret_stdout ret)
    end.
Proof. reflexivity. Qed.

Lemma execFileSync_succeeded signal stdout stderr :
  child_run child revRange paths options
  = Ran None (Some 0%Z) signal stdout stderr ->
  execFileSync child "git" (getDiff_args revRange paths)
               (getDiff_execOptions options)
  = Return (result_of options stdout).
Proof.
  intros H. rewrite execFileSync_run, H. cbn. f_equal. apply present_result.
Qed.

(** A run that did not succeed makes [execFileSync] throw an error that
    carries the run's errno name, status and signal, and its standard
    error as [spawnSync] presents it. *)
Lemma execFileSync_failed :
  succeeded (child_run child revRange paths options) = false ->
  exists err,
    execFileSync child "git" (getDiff_args revRange paths)
                 (getDiff_execOptions options) = Throw err /\
    err_code err = sp_error (child_run child revRange paths options) /\
    err_status err = sp_status (child_run child revRange paths options) /\
    err_signal err = sp_signal (child_run child revRange paths options) /\
    err_stderr err
    = match sp_output (child_run child revRange paths options) with
      | Some (_, b) => present (encoding (getDiff_execOptions options)) b
      | None => VNull
      end /\
    err_message err <> "" /\
    (forall code,
        sp_error (child_run child revRange paths options) = Some code ->
        err_message err = "spawnSync git " ++ code).
Proof.
  intros H. rewrite execFileSync_run.
  generalize dependent (child_run child revRange paths options).
  intros r H. unfold succeeded in H.
  cbn zeta. unfold checkExecSyncError. cbn [ret_error ret_status ret_signal].
  destruct (sp_error r) as [code |] eqn:E.
  - eexists; repeat split; cbn; try discriminate.
    intros c [= <-]. reflexivity.
  - rewrite H. eexists; repeat split; cbn; discriminate.
Qed.

End OnNode.

(** The text of the labeled block when the run captured bytes on
    standard error. *)
Lemma stderrMsg_of_present (enc : option string) (err : ExecError)
      (b : Buffer) :
  err_stderr err = present enc b -> b <> [] ->
  getDiff_stderrMsg err = Buffer_toString b.
Proof.
  intros H Hb. unfold getDiff_stderrMsg. rewrite H. unfold present.
  pose proof (truthy_string_true _ (Buffer_toString_nonempty b Hb)) as T.
  destruct enc as [e |];
    [destruct (truthy_string e && negb (e =? "buffer")) |];
    cbn; try rewrite T; reflexivity.
Qed.

Lemma getDiff_msg_block (err : ExecError) (text : string) :
  err_message err <> "" -> getDiff_stderrMsg err = text -> text <> "" ->
  getDiff_msg err
  = "git diff failed: " ++ err_message err
    ++ nl ++ "stderr:" ++ nl ++ text.
Proof.
  intros Hm Ht Hne. unfold getDiff_msg. rewrite Ht.
  rewrite (truthy_string_true _ Hm), (truthy_string_true _ Hne).
  reflexivity.
Qed.

Section Outcome.

Variable child : Child.
Variables (revRange : option string) (paths : list string)
          (options : GetDiffOptions).

Lemma succeeded_inv (r : SpawnOutcome) :
  succeeded r = true ->
  exists signal stdout stderr, r = Ran None (Some 0%Z) signal stdout stderr.
Proof.
  destruct r as [errno | [code |] [z |] signal stdout stderr];
    cbn; try discriminate.
  intros H. apply Z.eqb_eq in H. subst z. eauto.
Qed.

Lemma is_zero_false (status : option Z) :
  status <> Some 0%Z -> is_zero status = false.
Proof.
  destruct status as [z |]; cbn; [| reflexivity].
  intros H. apply Z.eqb_neq. congruence.
Qed.

(** The two ways a call can end. *)
Lemma getDiff_on_cases :
  (exists signal stdout stderr,
      child_run child revRange paths options
      = Ran None (Some 0%Z) signal stdout stderr /\
      getDiff_on child revRange paths options
      = Return (result_of options stdout))
  \/
  (succeeded (child_run child revRange paths options) = false /\
   exists err,
     execFileSync child "git" (getDiff_args revRange paths)
                  (getDiff_execOptions options) = Throw err /\
     getDiff_on child revRange paths options
     = Throw (getDiff_catch err)).
Proof.
  destruct (succeeded (child_run child revRange paths options)) eqn:S.
  - left. destruct (succeeded_inv _ S) as (signal & stdout & stderr & R).
    exists signal, stdout, stderr. split; [exact R |].
    apply getDiff_returns, (execFileSync_succeeded _ _ _ _ _ _ _ R).
  - right. split; [reflexivity |].
    destruct (execFileSync_failed child revRange paths options S)
      as (err & E & _).
    exists err. split; [exact E |]. apply getDiff_throws, E.
Qed.

Lemma getDiff_on_failed :
  succeeded (child_run child revRange paths options) = false ->
  exists err,
    getDiff_on child revRange paths options = Throw (getDiff_catch err) /\
    err_code err = sp_error (child_run child revRange paths options) /\
    err_status err = sp_status (child_run child revRange paths options) /\
    err_signal err = sp_signal (child_run child revRange paths options) /\
    err_stderr err
    = match sp_output (child_run child revRange paths options) with
      | Some (_, b) => present (encoding (getDiff_execOptions options)) b
      | None => VNull
      end /\
    err_message err <> "" /\
    (forall code,
        sp_error (child_run child revRange paths options) = Some code ->
        err_message err = "spawnSync git " ++ code).
Proof.
  intros S.
  destruct (execFileSync_failed child revRange paths options S)
    as (err & E & F).
  exists err. split; [apply getDiff_throws, E | exact F].
Qed.

End Outcome.

(** C2.  A call that returns hands back the bytes the child wrote on
    standard output: decoded as UTF-8 text when [raw] is false or unset,
    as the very same byte sequence when [raw] is true, whether or not those
    bytes are well-formed UTF-8. *)
Theorem getDiff_result_encoding
        (child : Child) (revRange : option string) (paths : list string)
        (options : GetDiffOptions) (result : Value) :
  getDiff_on child revRange paths options = Return result ->
  exists signal stdout stderr,
    child_run child revRange paths options
    = Ran None (Some 0%Z) signal stdout stderr /\
    (raw options <> Some true ->
     result = VString (Buffer_toString stdout)) /\
    (raw options = Some true -> result = VBuffer stdout).
Proof.
  intros H.
  destruct (getDiff_on_cases child revRange paths options)
    as [(signal & stdout & stderr & R & G) | (_ & err & _ & G)];
    rewrite G in H; [| discriminate].
  injection H as <-. exists signal, stdout, stderr.
  split; [exact R |]. unfold result_of.
  split; intros Hraw.
  - destruct (raw options) as [[|] |]; [congruence | reflexivity ..].
  - rewrite Hraw. reflexivity.
Qed.


(** C8.  The result depends on the world only through the one run of the
    child: two calls with the same arguments whose child behaves the same
    on that run give the same result, byte for byte. *)
Theorem getDiff_deterministic
        (child1 child2 : Child) (revRange : option string)
        (paths : list string) (options : GetDiffOptions) :
  child_run child1 revRange paths options
  = child_run child2 revRange paths options ->
  getDiff_on child1 revRange paths options
  = getDiff_on child2 revRange paths options.
Proof.
  intros H. unfold child_run in H.
  cbn [call_file call_args call_options getDiff_call] in H.
  unfold getDiff_on, getDiff, run_call, execFileSync, spawnSync.
  cbn [call_file call_args call_options getDiff_call].
  rewrite H. reflexivity.
Qed.

(** A reported overflow is rethrown.  When the run reports [ENOBUFS] for
    the cap it was given, which is [maxBuffer] or [200*1024*1024] without
    one, [getDiff] returns nothing: it throws one error whose underlying
    failure has code [ENOBUFS] and whose message starts with
    [git diff failed: spawnSync git ENOBUFS].  No failure of a run without
    an errno (a status other than 0, a signal) is ever that error. *)
Lemma getDiff_output_too_large
        (child : Child) (revRange : option string) (paths : list string)
        (options : GetDiffOptions) (status : option Z)
        (signal : option string) (stdout stderr : Buffer) :
  child "git" (getDiff_args revRange paths) (gitDir options)
        (match maxBuffer options with
         | Some m => m
         | None => default_maxBuffer
         end)
  = Ran (Some ENOBUFS) status signal stdout stderr ->
  exists ex,
    getDiff_on child revRange paths options = Throw ex /\
    (forall result,
        getDiff_on child revRange paths options <> Return result) /\
    err_code (original ex) = Some ENOBUFS /\
    prefix "git diff failed: spawnSync git ENOBUFS" (message ex) = true /\
    (forall child' revRange' paths' options' ex',
        sp_error (child_run child' revRange' paths' options') = None ->
        getDiff_on child' revRange' paths' options' = Throw ex' ->
        err_code (original ex') = None /\ ex' <> ex).
Proof.
  intros H.
  change (child_run child revRange paths options
          = Ran (Some ENOBUFS) status signal stdout stderr) in H.
  assert (S : succeeded (child_run child revRange paths options) = false)
    by (rewrite H; reflexivity).
  destruct (getDiff_on_failed child revRange paths options S)
    as (err & G & Hcode & _ & _ & _ & _ & Hmsg).
  rewrite H in Hcode, Hmsg. cbn [sp_error] in Hcode, Hmsg.
  specialize (Hmsg ENOBUFS eq_refl).
  exists (getDiff_catch err). split; [exact G |].
  split; [intros result; rewrite G; discriminate |].
  split; [exact Hcode |].
  split.
  - cbn [message getDiff_catch]. unfold getDiff_msg. rewrite Hmsg.
    destruct (truthy_string (getDiff_stderrMsg err)); reflexivity.
  - intros child' revRange' paths' options' ex' E' G'.
    destruct (succeeded (child_run child' revRange' paths' options')) eqn:S'.
    + destruct (getDiff_on_cases child' revRange' paths' options')
        as [(? & ? & ? & _ & R) | (S'' & _)]; congruence.
    + destruct (getDiff_on_failed child' revRange' paths' options' S')
        as (err' & G'' & Hcode' & _).
      rewrite G'' in G'. injection G' as <-.
      cbn [original getDiff_catch]. rewrite Hcode', E'.
      split; [reflexivity |].
      intros Heq. apply (f_equal original) in Heq.
      cbn [original getDiff_catch] in Heq.
      rewrite Heq, Hcode in Hcode'. congruence.
Qed.

Lemma getDiff_output_too_large_witness :
  exists ex,
    getDiff_on (printing_child [x64; x69; x66; x66] [] 0)
               None [] (capped_options 3) = Throw ex /\
    err_code (original ex) = Some ENOBUFS.
Proof.
  destruct (getDiff_output_too_large
              (printing_child [x64; x69; x66; x66] [] 0)
              None [] (capped_options 3)
              None (Some "SIGTERM") [x64; x69; x66] [] eq_refl)
    as (ex & G & _ & C & _).
  exists ex. split; [exact G | exact C].
Defined.

(** C4.  When the child exits with a status other than 0 and wrote
    well-formed UTF-8 on standard error, the message of the thrown error is
    [git diff failed: ], the description of the underlying failure, then the
    block labeled [stderr:] holding that text. *)
Theorem getDiff_error_reports_stderr
        (child : Child) (revRange : option string) (paths : list string)
        (options : GetDiffOptions) (status : option Z)
        (signal : option string) (stdout stderr : Buffer) :
  child_run child revRange paths options
  = Ran None status signal stdout stderr ->
  status <> Some 0%Z ->
  stderr <> [] ->
  valid_utf8 stderr = true ->
  exists ex,
    getDiff_on child revRange paths options = Throw ex /\
    err_message (original ex) <> "" /\
    message ex
    = "git diff failed: " ++ err_message (original ex)
      ++ nl ++ "stderr:" ++ nl ++ string_of_list_byte stderr /\
    includes (message ex) (string_of_list_byte stderr) = true /\
    includes (message ex) (err_message (original ex)) = true.
Proof.
  intros R Hst Hne Hvalid.
  assert (S : succeeded (child_run child revRange paths options) = false)
    by (rewrite R; cbn; apply is_zero_false, Hst).
  destruct (getDiff_on_failed child revRange paths options S)
    as (err & G & _ & _ & _ & Herr & Hm & _).
  rewrite R in Herr. cbn [sp_output] in Herr.
  pose proof (stderrMsg_of_present _ err stderr Herr Hne) as T.
  rewrite (valid_utf8_decode _ Hvalid) in T.
  pose proof (getDiff_msg_block err _ Hm T
                (string_of_list_byte_nonempty _ Hne)) as M.
  exists (getDiff_catch err). cbn [message original getDiff_catch].
  split; [exact G |]. split; [exact Hm |]. split; [exact M |].
  rewrite M. split.
  - apply (includes_append_r "git diff failed: "),
          (includes_append_r (err_message err)),
          (includes_append_r nl), (includes_append_r "stderr:"),
          (includes_suffix nl).
  - apply (includes_infix "git diff failed: ").
Qed.

Lemma getDiff_error_reports_stderr_witness :
  exists ex,
    getDiff_on (printing_child [] [x62; x61; x64] 128)
               (Some "bad..range") [] no_options = Throw ex /\
    includes (message ex) "bad" = true.
Proof.
  destruct (getDiff_error_reports_stderr
              (printing_child [] [x62; x61; x64] 128)
              (Some "bad..range") [] no_options
              (Some 128%Z) None [] [x62; x61; x64] eq_refl)
    as (ex & G & _ & _ & I & _).
  - discriminate.
  - discriminate.
  - reflexivity.
  - exists ex. split; [exact G | exact I].
Defined.

(** C5, as stated, fails.  A child that exits with status 128 after
    writing the single byte [0xFF] on standard error: the byte is not
    well-formed UTF-8, yet the message holds U+FFFD where the claim expects
    the placeholder, with [raw] unset as with [raw] true. *)
Lemma getDiff_invalid_stderr_no_placeholder :
  valid_utf8 [xff] = false /\
  (exists ex,
      getDiff_on (printing_child [] [xff] 128) None [] no_options = Throw ex /\
      message ex
      = "git diff failed: Command failed: git --no-pager diff"
        ++ nl ++ REPLACEMENT ++ nl ++ "stderr:" ++ nl ++ REPLACEMENT /\
      includes (message ex) stderr_placeholder = false) /\
  (exists ex,
      getDiff_on (printing_child [] [xff] 128) None [] raw_options = Throw ex /\
      includes (message ex) stderr_placeholder = false).
Proof.
  split; [reflexivity |].
  split; eexists; repeat split; vm_compute; reflexivity.
Qed.

(** C5, amended.  A failing call whose child wrote ill-formed UTF-8 on
    standard error throws the one composed error and no decoding error: the
    labeled block of its message holds the lossy decoding of those bytes,
    each ill-formed part replaced by U+FFFD.  The placeholder is what the
    block holds when converting [err.stderr] to a string throws. *)
Theorem getDiff_stderr_lossy_decoding :
  (forall (child : Child) (revRange : option string) (paths : list string)
          (options : GetDiffOptions) (error : option string)
          (status : option Z) (signal : option string)
          (stdout stderr : Buffer),
      child_run child revRange paths options
      = Ran error status signal stdout stderr ->
      succeeded (Ran error status signal stdout stderr) = false ->
      valid_utf8 stderr = false ->
      exists ex,
        getDiff_on child revRange paths options = Throw ex /\
        message ex
        = "git diff failed: " ++ err_message (original ex)
          ++ nl ++ "stderr:" ++ nl ++ Buffer_toString stderr)
  /\
  (forall (execFileSync :
             string -> list string -> ExecOptions
             -> Completion Value ExecError)
          (revRange : option string) (paths : list string)
          (options : GetDiffOptions) (err : ExecError),
      execFileSync "git" (getDiff_args revRange paths)
                   (getDiff_execOptions options) = Throw err ->
      err_stderr err = VObject None ->
      exists ex,
        getDiff execFileSync revRange paths options = Throw ex /\
        original ex = err /\
        message ex
        = "git diff failed: "
          ++ (if truthy_string (err_message err) then err_message err
              else String_of_error err)
          ++ nl ++ "stderr:" ++ nl ++ stderr_placeholder).
Proof.
  split.
  - intros child revRange paths options error status signal stdout stderr
           R F Hinvalid.
    pose proof (invalid_utf8_nonempty _ Hinvalid) as Hne.
    rewrite <- R in F.
    destruct (getDiff_on_failed child revRange paths options F)
      as (err & G & _ & _ & _ & Herr & Hm & _).
    rewrite R in Herr. cbn [sp_output] in Herr.
    exists (getDiff_catch err). split; [exact G |].
    cbn [message original getDiff_catch].
    apply (getDiff_msg_block err _ Hm
             (stderrMsg_of_present _ err stderr Herr Hne)
             (Buffer_toString_nonempty _ Hne)).
  - intros execFileSync revRange paths options err E Hobj.
    exists (getDiff_catch err).
    split; [apply getDiff_throws, E |]. split; [reflexivity |].
    cbn [message getDiff_catch]. unfold getDiff_msg, getDiff_stderrMsg.
    rewrite Hobj. reflexivity.
Qed.

Lemma getDiff_stderr_lossy_decoding_witness :
  exists ex,
    getDiff_on (printing_child [] [xc3; x28] 1) None [] raw_options
    = Throw ex /\
    message ex
    = "git diff failed: " ++ err_message (original ex)
      ++ nl ++ "stderr:" ++ nl ++ REPLACEMENT ++ "(".
Proof.
  exact (proj1 getDiff_stderr_lossy_decoding
               (printing_child [] [xc3; x28] 1) None [] raw_options
               None (Some 1%Z) None [] [xc3; x28]
               eq_refl eq_refl eq_refl).
Defined.

(** C6.  Every call whose run did not succeed (the child could not be
    started, exited with a status other than 0, was ended by a signal, or
    went over the output cap) throws exactly the error composed from what
    [execFileSync] threw, and returns nothing.  Its [original] field is that
    very error, from which the errno name, the exit status and the signal of
    the run are read off. *)
Theorem getDiff_failure_keeps_original
        (child : Child) (revRange : option string) (paths : list string)
        (options : GetDiffOptions) :
  succeeded (child_run child revRange paths options) = false ->
  exists err,
    execFileSync child "git" (getDiff_args revRange paths)
                 (getDiff_execOptions options) = Throw err /\
    getDiff_on child revRange paths options
    = Throw {| message := getDiff_msg err; original := err |} /\
    (forall result,
        getDiff_on child revRange paths options <> Return result) /\
    err_code err = sp_error (child_run child revRange paths options) /\
    err_status err = sp_status (child_run child revRange paths options) /\
    err_signal err = sp_signal (child_run child revRange paths options).
Proof.
  intros F.
  destruct (execFileSync_failed child revRange paths options F)
    as (err & E & Hcode & Hstatus & Hsignal & _).
  exists err. split; [exact E |].
  pose proof (getDiff_throws _ _ _ _ _ E : getDiff_on child _ _ _ = _) as G.
  split; [exact G |].
  split; [intros result; rewrite G; discriminate |].
  repeat split; assumption.
Qed.

Lemma getDiff_failure_keeps_original_witness :
  exists err,
    getDiff_on (killed_child "SIGKILL") (Some "HEAD") ["a b"] no_options
    = Throw {| message := getDiff_msg err; original := err |} /\
    err_status err = None /\ err_signal err = Some "SIGKILL".
Proof.
  destruct (getDiff_failure_keeps_original
              (killed_child "SIGKILL") (Some "HEAD") ["a b"] no_options
              eq_refl)
    as (err & _ & G & _ & _ & St & Sg).
  exists err. repeat split; assumption.
Defined.

Lemma getDiff_result_encoding_witness :
  exists signal stdout stderr,
    child_run (printing_child [xff; x0a] [] 0) None ["binary-file.bin"]
              raw_options
    = Ran None (Some 0%Z) signal stdout stderr /\
    (raw raw_options <> Some true ->
     VBuffer [xff; x0a] = VString (Buffer_toString stdout)) /\
    (raw raw_options = Some true -> VBuffer [xff; x0a] = VBuffer stdout).
Proof.
  exact (getDiff_result_encoding
           (printing_child [xff; x0a] [] 0) None ["binary-file.bin"]
           raw_options (VBuffer [xff; x0a]) eq_refl).
Defined.


Lemma getDiff_deterministic_witness :
  getDiff_on (printing_child [x2b] [] 0) None ["file with spaces.txt"]
             no_options
  = getDiff_on (fun _ _ _ _ => Ran None (Some 0%Z) None [x2b] [])
               None ["file with spaces.txt"] no_options.
Proof.
  exact (getDiff_deterministic
           (printing_child [x2b] [] 0)
           (fun _ _ _ _ => Ran None (Some 0%Z) None [x2b] [])
           None ["file with spaces.txt"] no_options eq_refl).
Defined.

(** ** Concrete runs *)

(** A launch failure: no standard error to report, the errno name is in
    the message and on the original error. *)
Example getDiff_launch_failure :
  getDiff_on missing_child None [] no_options
  = Throw {| message := "git diff failed: spawnSync git ENOENT";
             original := {| err_name := "Error";
                            err_message := "spawnSync git ENOENT";
                            err_code := Some "ENOENT";
                            err_status := None;
                            err_signal := None;
                            err_stdout := VNull;
                            err_stderr := VNull |} |}.
Proof. reflexivity. Qed.

(** The usage shown at the end of the source file: a range and a path with
    a space in it. *)
Example getDiff_args_usage :
  getDiff_args (Some "HEAD~1..HEAD") ["path/with space/file.txt"]
  = ["--no-pager"; "diff"; "HEAD~1..HEAD"; "--"; "path/with space/file.txt"].
Proof. reflexivity. Qed.

(** An empty range is dropped, as an absent one is. *)
Example getDiff_args_empty_range :
  getDiff_args (Some "") [] = ["--no-pager"; "diff"]
  /\ getDiff_args None [] = ["--no-pager"; "diff"].
Proof. split; reflexivity. Qed.

(** With [raw] set, an empty standard error is a truthy [Buffer] that
    decodes to the empty string: no labeled block is added. *)
Example getDiff_empty_stderr_raw :
  exists ex,
    getDiff_on (printing_child [] [] 1) None [] raw_options = Throw ex /\
    message ex = "git diff failed: Command failed: git --no-pager diff".
Proof. eexists; split; reflexivity. Qed.

(** ** Further properties of [getDiff] *)

Section MoreStrings.

Lemma append_empty_r (s : string) : s ++ "" = s.
Proof. induction s as [| c s IH]; cbn; [reflexivity | now rewrite IH]. Qed.

Lemma truthy_string_false (s : string) : truthy_string s = false -> s = "".
Proof.
  unfold truthy_string. destruct (String.eqb_spec s ""); [auto | discriminate].
Qed.

Lemma includes_empty (s : string) : includes s "" = true.
Proof. destruct s; reflexivity. Qed.

Lemma length_pos_nonempty (s : string) :
  (0 <? String.length s)%nat = negb (s =? "").
Proof. destruct s; reflexivity. Qed.

Lemma all_ascii_decode (b : Buffer) :
  all_ascii b = true -> Buffer_toString b = string_of_list_byte b.
Proof.
  unfold Buffer_toString.
  induction b as [| x rest IH]; [reflexivity |].
  cbn [all_ascii forallb]. intros H. apply andb_prop in H as [Hx Hrest].
  change (string_of_list_byte (x :: rest))
    with (String (ascii_of_byte x) (string_of_list_byte rest)).
  cbn [utf8_scan]. rewrite Hx. f_equal. apply IH, Hrest.
Qed.

End MoreStrings.

Section MoreArgs.

Variables (revRange : option string) (paths : list string).

(** X1.  Nothing is split or merged: the number of arguments depends only
    on whether the range is given and non-empty and on how many paths
    there are, never on the characters they hold. *)
Theorem getDiff_args_length :
  List.length (getDiff_args revRange paths)
  = (2
     + match revRange with
       | Some r => if (r =? "")%string then 0 else 1
       | None => 0
       end
     + match paths with
       | [] => 0
       | _ :: _ => S (List.length paths)
       end)%nat.
Proof.
  rewrite getDiff_args_shape. unfold spec_argument_vector.
  destruct revRange as [[| c r] |]; destruct paths as [| p ps];
    cbn; rewrite ?length_app; cbn; lia.
Qed.

(** X2.  The i-th path is the argument that sits i places after the
    separator, unchanged; past the last path there is no argument. *)
Theorem getDiff_args_nth_path (i : nat) :
  nth_error (getDiff_args revRange paths)
            (List.length (getDiff_args revRange []) + 1 + i)
  = nth_error paths i.
Proof.
  rewrite !getDiff_args_shape. unfold spec_argument_vector.
  destruct revRange as [[| c r] |]; destruct paths as [| p ps]; cbn;
    try reflexivity; destruct i; reflexivity.
Qed.

(** X3.  The separator [--] is among the arguments exactly when there are
    paths, a path or the range being itself [--] apart. *)
Theorem getDiff_args_separator_iff :
  In "--" (getDiff_args revRange paths)
  <-> paths <> [] \/ revRange = Some "--".
Proof.
  rewrite getDiff_args_shape. unfold spec_argument_vector. split.
  - destruct paths as [| p ps]; [| left; discriminate].
    destruct revRange as [[| c r] |]; cbn.
    + intros [H | [H | []]]; discriminate.
    + intros [H | [H | [H | []]]]; try discriminate. right. congruence.
    + intros [H | [H | []]]; discriminate.
  - intros [H | H].
    + destruct paths as [| p ps]; [congruence |].
      destruct revRange as [[| c r] |]; cbn; auto 6.
    + subst. cbn. auto.
Qed.

(** X4.  No argument is made up: each one is [--no-pager], [diff], [--],
    the range or one of the paths. *)
Theorem getDiff_args_members (a : string) :
  In a (getDiff_args revRange paths) ->
  a = "--no-pager" \/ a = "diff" \/ a = "--"
  \/ revRange = Some a \/ In a paths.
Proof.
  rewrite getDiff_args_shape. unfold spec_argument_vector.
  destruct revRange as [[| c r] |]; destruct paths as [| p ps]; cbn;
    intuition (subst; auto).
Qed.

End MoreArgs.

Lemma getDiff_args_members_witness :
  "a b" = "--no-pager" \/ "a b" = "diff" \/ "a b" = "--"
  \/ Some "HEAD" = Some "a b" \/ In "a b" ["a b"; "c"].
Proof.
  apply (getDiff_args_members (Some "HEAD") ["a b"; "c"] "a b").
  cbn. auto 6.
Defined.

Section MoreMessage.

Variable execFileSync :
  string -> list string -> ExecOptions -> Completion Value ExecError.
Variables (revRange : option string) (paths : list string)
          (options : GetDiffOptions).

Lemma getDiff_msg_template (err : ExecError) :
  getDiff_msg err
  = "git diff failed: " ++ getDiff_description err
    ++ (if truthy_string (getDiff_stderrMsg err)
        then stderr_block (getDiff_stderrMsg err) else "").
Proof. reflexivity. Qed.

(** What [getDiff] throws is always composed from what [execFileSync]
    threw. *)
Lemma getDiff_throw_inv (ex : DiffError) :
  getDiff execFileSync revRange paths options = Throw ex ->
  exists err,
    execFileSync "git" (getDiff_args revRange paths)
                 (getDiff_execOptions options) = Throw err /\
    ex = getDiff_catch err.
Proof.
  rewrite getDiff_unfold.
  destruct (execFileSync "git" (getDiff_args revRange paths)
                         (getDiff_execOptions options)) as [v | err];
    [discriminate |].
  intros [= <-]. exists err. split; reflexivity.
Qed.

(** X5.  Whatever [execFileSync] throws, the message of the error that
    leaves [getDiff] starts with [git diff failed: ]. *)
Theorem getDiff_message_prefix (ex : DiffError) :
  getDiff execFileSync revRange paths options = Throw ex ->
  prefix "git diff failed: " (message ex) = true.
Proof.
  intros H. destruct (getDiff_throw_inv ex H) as (err & _ & ->).
  cbn [message getDiff_catch]. rewrite getDiff_msg_template.
  apply prefix_append.
Qed.

(** X6.  The message of the underlying error is always part of the
    composed message. *)
Theorem getDiff_message_includes_description (ex : DiffError) :
  getDiff execFileSync revRange paths options = Throw ex ->
  includes (message ex) (err_message (original ex)) = true.
Proof.
  intros H. destruct (getDiff_throw_inv ex H) as (err & _ & ->).
  cbn [message original getDiff_catch]. rewrite getDiff_msg_template.
  unfold getDiff_description.
  destruct (truthy_string (err_message err)) eqn:T.
  - apply includes_infix.
  - rewrite (truthy_string_false _ T). apply includes_empty.
Qed.

(** X7.  No labeled block without text: when the thrown error has no
    [stderr], an empty string, or an empty [Buffer] (truthy, but decoding to
    nothing), the message is [git diff failed: ] and the description, and
    nothing after it. *)
Theorem getDiff_message_without_stderr (err : ExecError) :
  execFileSync "git" (getDiff_args revRange paths)
               (getDiff_execOptions options) = Throw err ->
  err_stderr err = VNull \/ err_stderr err = VString ""
  \/ err_stderr err = VBuffer [] ->
  getDiff execFileSync revRange paths options
  = Throw {| message := "git diff failed: " ++ getDiff_description err;
             original := err |}.
Proof.
  intros E H. rewrite (getDiff_throws _ _ _ _ _ E). unfold getDiff_catch.
  do 2 f_equal. rewrite getDiff_msg_template.
  assert (T : getDiff_stderrMsg err = "")
    by (unfold getDiff_stderrMsg; destruct H as [-> | [-> | ->]];
        reflexivity).
  rewrite T. cbn [truthy_string String.eqb negb]. now rewrite append_empty_r.
Qed.

(** X8.  A [stderr] that is already a non-empty string goes into the
    labeled block as it is, with no decoding step. *)
Theorem getDiff_message_string_stderr (err : ExecError) (s : string) :
  execFileSync "git" (getDiff_args revRange paths)
               (getDiff_execOptions options) = Throw err ->
  err_stderr err = VString s ->
  s <> "" ->
  getDiff execFileSync revRange paths options
  = Throw {| message := "git diff failed: " ++ getDiff_description err
                        ++ nl ++ "stderr:" ++ nl ++ s;
             original := err |}.
Proof.
  intros E H Hs. rewrite (getDiff_throws _ _ _ _ _ E). unfold getDiff_catch.
  do 2 f_equal. rewrite getDiff_msg_template.
  assert (T : getDiff_stderrMsg err = s)
    by (unfold getDiff_stderrMsg; rewrite H; cbn [truthy];
        now rewrite (truthy_string_true _ Hs)).
  rewrite T, (truthy_string_true _ Hs). reflexivity.
Qed.

(** X9.  A [stderr] that is a non-empty [Buffer] always yields a labeled
    block, holding its decoding; when every byte is ASCII that is the
    bytes themselves. *)
Theorem getDiff_message_buffer_stderr (err : ExecError) (b : Buffer) :
  execFileSync "git" (getDiff_args revRange paths)
               (getDiff_execOptions options) = Throw err ->
  err_stderr err = VBuffer b ->
  b <> [] ->
  getDiff execFileSync revRange paths options
  = Throw {| message := "git diff failed: " ++ getDiff_description err
                        ++ nl ++ "stderr:" ++ nl ++ Buffer_toString b;
             original := err |}
  /\ (all_ascii b = true -> Buffer_toString b = string_of_list_byte b).
Proof.
  intros E H Hb. split; [| apply all_ascii_decode].
  rewrite (getDiff_throws _ _ _ _ _ E). unfold getDiff_catch.
  do 2 f_equal. rewrite getDiff_msg_template.
  assert (T : getDiff_stderrMsg err = Buffer_toString b)
    by (unfold getDiff_stderrMsg; rewrite H; reflexivity).
  rewrite T, (truthy_string_true _ (Buffer_toString_nonempty b Hb)).
  reflexivity.
Qed.

(** X10.  An underlying error with an empty message is described by
    [String(err)], which is then its name. *)
Theorem getDiff_message_empty_description (err : ExecError) :
  execFileSync "git" (getDiff_args revRange paths)
               (getDiff_execOptions options) = Throw err ->
  err_message err = "" ->
  exists ex,
    getDiff execFileSync revRange paths options = Throw ex /\
    original ex = err /\
    message ex
    = "git diff failed: " ++ err_name err
      ++ (if truthy_string (getDiff_stderrMsg err)
          then stderr_block (getDiff_stderrMsg err) else "").
Proof.
  intros E Hm. exists (getDiff_catch err).
  split; [apply getDiff_throws, E |]. split; [reflexivity |].
  cbn [message getDiff_catch]. rewrite getDiff_msg_template.
  unfold getDiff_description, String_of_error. rewrite Hm.
  cbn [truthy_string String.eqb negb].
  destruct (String.eqb_spec (err_name err) "") as [-> |]; reflexivity.
Qed.

End MoreMessage.

Lemma getDiff_message_prefix_witness :
  prefix "git diff failed: "
         (message (getDiff_catch (plain_error "TypeError" "bad" VNull)))
  = true.
Proof.
  exact (getDiff_message_prefix
           (throwing (plain_error "TypeError" "bad" VNull))
           None [] no_options _ eq_refl).
Defined.

Lemma getDiff_message_includes_description_witness :
  includes (message (getDiff_catch (plain_error "Error" "boom" VNull)))
           "boom" = true.
Proof.
  exact (getDiff_message_includes_description
           (throwing (plain_error "Error" "boom" VNull))
           None ["a"] no_options _ eq_refl).
Defined.

Lemma getDiff_message_without_stderr_witness :
  getDiff (throwing (plain_error "Error" "boom" (VBuffer [])))
          (Some "HEAD") [] raw_options
  = Throw {| message := "git diff failed: boom";
             original := plain_error "Error" "boom" (VBuffer []) |}.
Proof.
  apply (getDiff_message_without_stderr
           (throwing (plain_error "Error" "boom" (VBuffer [])))
           (Some "HEAD") [] raw_options
           (plain_error "Error" "boom" (VBuffer [])) eq_refl).
  right. right. reflexivity.
Defined.

Lemma getDiff_message_string_stderr_witness :
  getDiff (throwing (plain_error "Error" "boom" (VString "fatal")))
          None [] no_options
  = Throw {| message := "git diff failed: boom" ++ nl ++ "stderr:" ++ nl
                        ++ "fatal";
             original := plain_error "Error" "boom" (VString "fatal") |}.
Proof.
  apply (getDiff_message_string_stderr
           (throwing (plain_error "Error" "boom" (VString "fatal")))
           None [] no_options
           (plain_error "Error" "boom" (VString "fatal")) "fatal" eq_refl
           eq_refl).
  discriminate.
Defined.

Lemma getDiff_message_buffer_stderr_witness :
  getDiff (throwing (plain_error "Error" "boom" (VBuffer [x6e; x6f])))
          None [] raw_options
  = Throw {| message := "git diff failed: boom" ++ nl ++ "stderr:" ++ nl
                        ++ "no";
             original := plain_error "Error" "boom" (VBuffer [x6e; x6f]) |}.
Proof.
  apply (getDiff_message_buffer_stderr
           (throwing (plain_error "Error" "boom" (VBuffer [x6e; x6f])))
           None [] raw_options
           (plain_error "Error" "boom" (VBuffer [x6e; x6f])) [x6e; x6f]
           eq_refl eq_refl).
  discriminate.
Defined.

Lemma getDiff_message_empty_description_witness :
  exists ex,
    getDiff (throwing (plain_error "RangeError" "" VNull)) None [] no_options
    = Throw ex /\
    original ex = plain_error "RangeError" "" VNull /\
    message ex = "git diff failed: RangeError".
Proof.
  exact (getDiff_message_empty_description
           (throwing (plain_error "RangeError" "" VNull)) None [] no_options
           (plain_error "RangeError" "" VNull) eq_refl eq_refl).
Defined.

(** X11.  With the range left out or empty and the paths left out or
    empty, the call is [git --no-pager diff] and nothing more, whatever the
    options; with the options left out as well, the output is decoded as
    UTF-8, capped at [200*1024*1024] bytes, and no working directory is
    set. *)
Theorem getDiff_call_working_tree
        (revRange : option string) (paths : option (list string))
        (options : option GetDiffOptions) :
  revRange = None \/ revRange = Some "" ->
  paths = None \/ paths = Some [] ->
  call_file (getDiff_call_defaults revRange paths options) = "git" /\
  call_args (getDiff_call_defaults revRange paths options)
  = ["--no-pager"; "diff"] /\
  (options = None ->
   call_options (getDiff_call_defaults revRange paths options)
   = {| cwd := None; encoding := Some "utf8";
        exec_maxBuffer := default_maxBuffer |}).
Proof.
  intros [-> | ->] [-> | ->]; repeat split; intros ->; reflexivity.
Qed.

Lemma getDiff_call_working_tree_witness :
  call_file (getDiff_call_defaults (Some "") None None) = "git" /\
  call_args (getDiff_call_defaults (Some "") None None)
  = ["--no-pager"; "diff"] /\
  (@None GetDiffOptions = None ->
   call_options (getDiff_call_defaults (Some "") None None)
   = {| cwd := None; encoding := Some "utf8";
        exec_maxBuffer := default_maxBuffer |}).
Proof.
  apply (getDiff_call_working_tree (Some "") None None).
  - right. reflexivity.
  - left. reflexivity.
Defined.

(** ** Further properties on Node's runtime *)

Section MoreOnNode.

Lemma Buffer_toString_length_pos (b : Buffer) :
  (0 <? String.length (Buffer_toString b))%nat = (0 <? List.length b)%nat.
Proof.
  destruct b as [| x rest]; [reflexivity |].
  rewrite length_pos_nonempty.
  apply (truthy_string_true (Buffer_toString (x :: rest))),
        Buffer_toString_nonempty.
  discriminate.
Qed.

(** The text Node appends to its own message does not depend on whether
    standard error was decoded first. *)
Lemma stderr_suffix_present (enc : option string) (b : Buffer) :
  stderr_suffix (present enc b)
  = if (0 <? List.length b)%nat then nl ++ Buffer_toString b else "".
Proof.
  unfold present.
  destruct enc as [e |];
    [destruct (truthy_string e && negb (e =? "buffer")) |];
    cbn [stderr_suffix]; try reflexivity.
  now rewrite Buffer_toString_length_pos.
Qed.

(** Nor does the text of the labeled block: line 69 takes a string as it
    is and decodes a [Buffer], which comes to the same text. *)
Lemma stderrMsg_present_any (enc : option string) (err : ExecError)
      (b : Buffer) :
  err_stderr err = present enc b ->
  getDiff_stderrMsg err = Buffer_toString b.
Proof.
  intros H. destruct b as [| x rest].
  - unfold getDiff_stderrMsg. rewrite H. unfold present.
    destruct enc as [e |];
      [destruct (truthy_string e && negb (e =? "buffer")) |]; reflexivity.
  - apply (stderrMsg_of_present enc); [exact H | discriminate].
Qed.

Lemma getDiff_msg_eq (e1 e2 : ExecError) :
  err_name e1 = err_name e2 ->
  err_message e1 = err_message e2 ->
  getDiff_stderrMsg e1 = getDiff_stderrMsg e2 ->
  getDiff_msg e1 = getDiff_msg e2.
Proof.
  intros Hn Hm Hs. unfold getDiff_msg, String_of_error.
  now rewrite Hn, Hm, Hs.
Qed.

Lemma execFileSync_returns_of (child : Child) (revRange : option string)
      (paths : list string) (options : GetDiffOptions) :
  execFileSync child "git" (getDiff_args revRange paths)
               (getDiff_execOptions options)
  = match checkExecSyncError
            (returns_of (encoding (getDiff_execOptions options))
                        (child_run child revRange paths options))
            "git" (getDiff_args revRange paths) with
    | Some err => Throw err
    | None =>
        Return (ret_stdout
                  (returns_of (encoding (getDiff_execOptions options))
                              (child_run child revRange paths options)))
    end.
Proof. reflexivity. Qed.

(** The error of a failed run has the same composed message under any two
    encodings. *)
Lemma checkExecSyncError_message (r : SpawnOutcome) (args : list string)
      (enc1 enc2 : option string) (err1 : ExecError) :
  checkExecSyncError (returns_of enc1 r) "git" args = Some err1 ->
  exists err2,
    checkExecSyncError (returns_of enc2 r) "git" args = Some err2 /\
    getDiff_msg err2 = getDiff_msg err1 /\
    err_code err2 = err_code err1 /\
    err_status err2 = err_status err1 /\
    err_signal err2 = err_signal err1.
Proof.
  unfold checkExecSyncError, returns_of.
  cbn [ret_error ret_status ret_signal ret_stdout ret_stderr].
  destruct (sp_error r) as [code |].
  - intros [= <-]. eexists. split; [reflexivity |].
    split; [| repeat split].
    apply getDiff_msg_eq; cbn [err_name err_message]; try reflexivity.
    destruct (sp_output r) as [[out e] |]; [| reflexivity].
    transitivity (Buffer_toString e);
      [apply (stderrMsg_present_any enc2)
      | symmetry; apply (stderrMsg_present_any enc1)]; reflexivity.
  - destruct (is_zero (sp_status r)); [discriminate |].
    intros [= <-]. eexists. split; [reflexivity |].
    split; [| repeat split].
    apply getDiff_msg_eq; cbn [err_name err_message]; try reflexivity.
    + destruct (sp_output r) as [[out e] |]; [| reflexivity].
      now rewrite !stderr_suffix_present.
    + destruct (sp_output r) as [[out e] |]; [| reflexivity].
      transitivity (Buffer_toString e);
        [apply (stderrMsg_present_any enc2)
        | symmetry; apply (stderrMsg_present_any enc1)]; reflexivity.
Qed.

End MoreOnNode.

(** X12.  [getDiff] returns exactly when the run reported no errno and
    exit status 0; in every other case it throws. *)
Theorem getDiff_on_returns_iff
        (child : Child) (revRange : option string) (paths : list string)
        (options : GetDiffOptions) :
  (exists result,
      getDiff_on child revRange paths options = Return result)
  <-> succeeded (child_run child revRange paths options) = true.
Proof.
  destruct (getDiff_on_cases child revRange paths options)
    as [(signal & stdout & stderr & R & G) | (F & err & _ & G)].
  - split; [intros _; rewrite R; reflexivity | intros _; eauto].
  - split; [intros [result H]; congruence | congruence].
Qed.

(** X13.  [raw] changes the type of the result, never the error: two calls
    that differ only in [raw] fail together, with the same message and the
    same errno name, status and signal on the original error. *)
Theorem getDiff_message_ignores_raw
        (child : Child) (revRange : option string) (paths : list string)
        (options1 options2 : GetDiffOptions) (ex1 : DiffError) :
  gitDir options1 = gitDir options2 ->
  maxBuffer options1 = maxBuffer options2 ->
  getDiff_on child revRange paths options1 = Throw ex1 ->
  exists ex2,
    getDiff_on child revRange paths options2 = Throw ex2 /\
    message ex2 = message ex1 /\
    err_code (original ex2) = err_code (original ex1) /\
    err_status (original ex2) = err_status (original ex1) /\
    err_signal (original ex2) = err_signal (original ex1).
Proof.
  intros Hdir Hcap H.
  assert (R : child_run child revRange paths options1
              = child_run child revRange paths options2)
    by (unfold child_run, getDiff_call, getDiff_execOptions;
        cbn [call_file call_args call_options cwd exec_maxBuffer];
        now rewrite Hdir, Hcap).
  unfold getDiff_on in *. rewrite getDiff_unfold in *.
  rewrite execFileSync_returns_of in *. rewrite R in H.
  destruct (checkExecSyncError
              (returns_of (encoding (getDiff_execOptions options1))
                          (child_run child revRange paths options2))
              "git" (getDiff_args revRange paths)) as [err1 |] eqn:E1;
    [| discriminate].
  injection H as <-.
  destruct (checkExecSyncError_message
              _ _ _ (encoding (getDiff_execOptions options2)) _ E1)
    as (err2 & E2 & M & C & St & Sg).
  rewrite E2. exists (getDiff_catch err2).
  cbn [message original getDiff_catch]. repeat split; assumption.
Qed.

Lemma getDiff_message_ignores_raw_witness :
  exists ex2,
    getDiff_on (printing_child [] [xff; x21] 2) None [] raw_options
    = Throw ex2 /\
    message ex2
    = "git diff failed: Command failed: git --no-pager diff"
      ++ nl ++ REPLACEMENT ++ "!" ++ nl ++ "stderr:" ++ nl
      ++ REPLACEMENT ++ "!".
Proof.
  destruct (getDiff_message_ignores_raw
              (printing_child [] [xff; x21] 2) None [] no_options raw_options
              _ eq_refl eq_refl eq_refl)
    as (ex2 & G & M & _).
  exists ex2. split; [exact G | exact M].
Defined.

(** ** The output cap *)

Lemma over_cap_stream (cap : Z) (stdout stderr : Buffer) :
  (0 < cap)%Z ->
  (cap < Z.of_nat (List.length stdout))%Z
  \/ (cap < Z.of_nat (List.length stderr))%Z ->
  over_cap cap stdout stderr = true.
Proof.
  intros Hpos H. unfold over_cap. apply andb_true_intro. split.
  - apply Z.ltb_lt, Hpos.
  - apply Z.ltb_lt. rewrite Nat2Z.inj_add. lia.
Qed.

Lemma getDiff_cap_passed (options : GetDiffOptions) :
  exec_maxBuffer (getDiff_execOptions options) = getDiff_cap options.
Proof.
  unfold getDiff_cap, getDiff_execOptions; cbn [exec_maxBuffer].
  destruct (maxBuffer options); reflexivity.
Qed.

(** The run [getDiff] gets from a supervised program. *)
Lemma child_run_supervise (stop : Stop) (program : Program)
      (revRange : option string) (paths : list string)
      (options : GetDiffOptions) :
  child_run (supervise stop program) revRange paths options
  = match program "git" (getDiff_args revRange paths) (gitDir options) with
    | CannotStart errno => NotStarted errno
    | Runs stdout stderr status signal =>
        if over_cap (getDiff_cap options) stdout stderr then
          let s := stop stdout stderr (getDiff_cap options) in
          Ran (Some ENOBUFS) (stopped_status s) (stopped_signal s)
              (stopped_stdout s) (stopped_stderr s)
        else Ran None status signal stdout stderr
    end.
Proof.
  unfold child_run, supervise.
  cbn [call_file call_args call_options getDiff_call].
  rewrite getDiff_cap_passed. reflexivity.
Qed.

(** C3, as stated, fails.  With [maxBuffer: 0] the runtime sets no limit:
    a child that writes the four bytes [diff] and exits with status 0 went
    over the configured cap of 0, and [getDiff] returns its whole output. *)
Lemma getDiff_zero_cap_unlimited :
  (exec_maxBuffer (getDiff_execOptions (capped_options 0))
   < Z.of_nat (List.length [x64; x69; x66; x66]))%Z /\
  getDiff_on (supervise stop_truncating (writing [x64; x69; x66; x66] [] 0))
             None [] (capped_options 0)
  = Return (VString "diff").
Proof. split; reflexivity. Qed.

(** C3, amended.  With a cap above 0, which is [maxBuffer] or
    [200*1024*1024] without one, a child that writes more than the cap on
    standard output or on standard error makes [getDiff] throw and return
    nothing, no truncated output either: the one error thrown has an
    underlying failure of code [ENOBUFS] and a message that starts with
    [git diff failed: spawnSync git ENOBUFS], and no failure of a run
    without an errno (a status other than 0, a signal) is ever that error.
    With a cap of 0 there is no limit: a child that exits with status 0 has
    its whole output returned, however long. *)
Theorem getDiff_over_cap_fails :
  (forall (stop : Stop) (program : Program) (revRange : option string)
          (paths : list string) (options : GetDiffOptions)
          (stdout stderr : Buffer) (status : option Z)
          (signal : option string),
      program "git" (getDiff_args revRange paths) (gitDir options)
      = Runs stdout stderr status signal ->
      (0 < match maxBuffer options with
           | Some m => m
           | None => 200 * 1024 * 1024
           end)%Z ->
      (match maxBuffer options with
       | Some m => m
       | None => 200 * 1024 * 1024
       end < Z.of_nat (List.length stdout))%Z
      \/ (match maxBuffer options with
          | Some m => m
          | None => 200 * 1024 * 1024
          end < Z.of_nat (List.length stderr))%Z ->
      exists ex,
        getDiff_on (supervise stop program) revRange paths options
        = Throw ex /\
        (forall result,
            getDiff_on (supervise stop program) revRange paths options
            <> Return result) /\
        err_code (original ex) = Some ENOBUFS /\
        prefix "git diff failed: spawnSync git ENOBUFS" (message ex) = true /\
        (forall child' revRange' paths' options' ex',
            sp_error (child_run child' revRange' paths' options') = None ->
            getDiff_on child' revRange' paths' options' = Throw ex' ->
            err_code (original ex') = None /\ ex' <> ex))
  /\
  (forall (stop : Stop) (program : Program) (revRange : option string)
          (paths : list string) (options : GetDiffOptions)
          (stdout stderr : Buffer) (signal : option string),
      maxBuffer options = Some 0%Z ->
      program "git" (getDiff_args revRange paths) (gitDir options)
      = Runs stdout stderr (Some 0%Z) signal ->
      getDiff_on (supervise stop program) revRange paths options
      = Return (result_of options stdout)).
Proof.
  split.
  - intros stop program revRange paths options stdout stderr status signal
           P Hpos Hover.
    change (0 < getDiff_cap options)%Z in Hpos.
    change ((getDiff_cap options < Z.of_nat (List.length stdout))%Z
            \/ (getDiff_cap options < Z.of_nat (List.length stderr))%Z)
      in Hover.
    pose proof (child_run_supervise stop program revRange paths options) as R.
    rewrite P, (over_cap_stream _ _ _ Hpos Hover) in R. cbn zeta in R.
    exact (getDiff_output_too_large _ _ _ _ _ _ _ _ R).
  - intros stop program revRange paths options stdout stderr signal
           Hcap P.
    pose proof (child_run_supervise stop program revRange paths options) as R.
    rewrite P in R. unfold getDiff_cap in R. rewrite Hcap in R.
    cbn [over_cap Z.ltb Z.compare andb] in R.
    apply getDiff_returns, (execFileSync_succeeded _ _ _ _ _ _ _ R).
Qed.

Lemma getDiff_over_cap_fails_witness :
  exists ex,
    getDiff_on (supervise stop_truncating
                          (writing [x64; x69; x66; x66] [] 0))
               None [] (capped_options 3)
    = Throw ex /\
    err_code (original ex) = Some ENOBUFS /\
    prefix "git diff failed: spawnSync git ENOBUFS" (message ex) = true.
Proof.
  destruct (proj1 getDiff_over_cap_fails
                  stop_truncating (writing [x64; x69; x66; x66] [] 0)
                  None [] (capped_options 3)
                  [x64; x69; x66; x66] [] (Some 0%Z) None eq_refl)
    as (ex & G & _ & C & M & _).
  - reflexivity.
  - left. reflexivity.
  - exists ex. repeat split; assumption.
Defined.
